(** * EventHub: the declared topology of the event-hub stack

    A shallow embedding of the [EventHub] stack constructor: the construct
    tree it builds (event bus, archive, event lake bucket, delivery stream,
    Glue database, crawler role, crawler, events table and the five
    published parameters), together with the small amount of semantics
    needed to read the declared strings: resolution of deploy-time
    references, date formatting of the partition projection, substitution
    into the storage location template, event pattern matching and
    dependency-respecting provisioning orders. *)

From Stdlib Require Import Ascii.
From stdpp Require Import gmap strings list fin_maps.

(** ** Strings with deploy-time references

    [eventLake.bucketName], [eventBus.eventBusArn], [glueDatabase.ref] and
    the like are not known when the constructor runs: a template literal
    that interpolates them is a sequence of literal text and references. *)

Module Cfn.

Inductive part :=
| Lit (s : string)
| Ref (logicalId : string)
| GetAtt (logicalId attribute : string).

Definition tstring := list part.

Global Instance part_eq_dec : EqDecision part.
Proof. solve_decision. Defined.

(** What a deployment assigns to the references. *)
Record deployment := {
  physicalId : string -> string;
  attributeOf : string -> string -> string;
}.

Definition resolve_part (d : deployment) (p : part) : string :=
  match p with
  | Lit s => s
  | Ref i => physicalId d i
  | GetAtt i a => attributeOf d i a
  end.

Fixpoint resolve (d : deployment) (t : tstring) : string :=
  match t with
  | [] => EmptyString
  | p :: t' => resolve_part d p +:+ resolve d t'
  end.

(** The constructs a string refers to. *)
Definition target (p : part) : option string :=
  match p with
  | Lit _ => None
  | Ref i => Some i
  | GetAtt i _ => Some i
  end.

Definition targets (t : tstring) : list string := omap target t.

End Cfn.

Import Cfn.

(** ** Construct properties, as the constructor passes them *)

Inductive RemovalPolicy := DESTROY | RETAIN | SNAPSHOT | RETAIN_ON_UPDATE_OR_DELETE.

Inductive ParameterTier := ADVANCED | INTELLIGENT_TIERING | STANDARD.

(** One entry of an event pattern field: a literal to match, or an
    [{ exists: b }] test. *)
Inductive matcher :=
| MExact (s : string)
| MExists (b : bool).

(** [events.EventPattern]: every field is optional; [detail] maps a field
    name of the event's payload to its matchers. *)
Record EventPattern := {
  ep_source : option (list string);
  ep_detailType : option (list string);
  ep_detail : option (list (string * list matcher));
}.

Record EventBusProps := {
  eventBusName : option string;
}.

Record ArchiveProps := {
  sourceEventBus : string;
  eventPattern : EventPattern;
  retentionDays : option nat;
}.

Record BucketProps := {
  removalPolicy : option RemovalPolicy;
  versioned : option bool;
  autoDeleteObjects : option bool;
}.

Record StringParameterProps := {
  parameterName : string;
  stringValue : tstring;
  tier : option ParameterTier;
}.

(** [firehose.S3Bucket(bucket, props)]: the destination of the stream. *)
Record S3BucketDestination := {
  dest_bucket : string;
  dataOutputPrefix : option tstring;
  errorOutputPrefix : option tstring;
  bufferingIntervalSeconds : option nat;
  bufferingSizeMiB : option nat;
}.

Record DeliveryStreamProps := {
  destination : S3BucketDestination;
}.

Record CfnDatabaseProps := {
  db_catalogId : string;
  db_name : string;
}.

Record RoleProps := {
  assumedBy : string;
  managedPolicies : list string;
}.

Record CfnCrawlerProps := {
  crawler_role : tstring;
  crawler_databaseName : tstring;
  s3Targets : list tstring;
  updateBehavior : string;
  deleteBehavior : string;
}.

Record Column := {
  col_name : string;
  col_type : string;
}.

Record CfnTableProps := {
  tbl_catalogId : string;
  tbl_databaseName : tstring;
  tbl_name : string;
  tableType : string;
  parameters : gmap string tstring;
  location : tstring;
  inputFormat : string;
  outputFormat : string;
  serializationLibrary : string;
  columns : list Column;
  partitionKeys : list Column;
}.

Inductive construct :=
| CEventBus (p : EventBusProps)
| CArchive (p : ArchiveProps)
| CBucket (p : BucketProps)
| CStringParameter (p : StringParameterProps)
| CDeliveryStream (p : DeliveryStreamProps)
| CDatabase (p : CfnDatabaseProps)
| CRole (p : RoleProps)
| CCrawler (p : CfnCrawlerProps)
| CTable (p : CfnTableProps).

(** ** The scope a constructor builds into

    [new X(this, id, props)] adds a child to the stack, [grantRead] records
    a grant and [addDependency] an ordering edge; the constructor body is a
    sequence of such effects on the stack under construction.

    [children] lists the constructs the constructor's own statements
    create, each under its path from the stack; [grants] lists the read
    grants the constructor asks for with [grantRead]. What a library
    construct creates inside itself (the role of the delivery stream and
    what that role is granted, the policy a grant attaches to a role) is
    not in the constructor's text and is not recorded. *)

Record scope := {
  children : list (string * construct);
  grants : list (string * string);
  dependsOn : list (string * string);
}.

Definition empty_scope : scope :=
  {| children := []; grants := []; dependsOn := [] |}.

Definition Build (A : Type) : Type := scope -> A * scope.

Definition ret {A} (a : A) : Build A := fun s => (a, s).

Definition bind {A B} (m : Build A) (k : A -> Build B) : Build B :=
  fun s => let (a, s') := m s in k a s'.

Notation "'let*' x := m 'in' k" := (bind m (fun x => k))
  (at level 20, x name, m at level 100, k at level 200, only parsing).
Notation "m ;;; k" := (bind m (fun _ => k))
  (at level 100, k at level 200, right associativity).

(** [new X(this, id, props)]: the handle it returns is the construct id. *)
Definition new_ (id : string) (c : construct) : Build string :=
  fun s => (id, {| children := children s ++ [(id, c)];
                   grants := grants s;
                   dependsOn := dependsOn s |}).

(** [bucket.grantRead(grantee)]. *)
Definition grantRead (bucket grantee : string) : Build unit :=
  fun s => (tt, {| children := children s;
                   grants := grants s ++ [(bucket, grantee)];
                   dependsOn := dependsOn s |}).

(** [a.addDependency(b)]: [a] is provisioned after [b]. *)
Definition addDependency (a b : string) : Build unit :=
  fun s => (tt, {| children := children s;
                   grants := grants s;
                   dependsOn := dependsOn s ++ [(a, b)] |}).

(** The path of a construct created in the scope of another. *)
Definition path_in (parent id : string) : string := parent +:+ "/" +:+ id.

(** [bus.archive(id, { eventPattern })]: an archive whose source is the
    bus it is called on, created in the scope of that bus. *)
Definition archive (bus id : string) (pat : EventPattern) : Build string :=
  new_ (path_in bus id) (CArchive {| sourceEventBus := bus;
                                     eventPattern := pat;
                                     retentionDays := None |}).

(** A template literal: the concatenation of its pieces. *)
Definition lit (s : string) : tstring := [Lit s].
Definition template (pieces : list tstring) : tstring := concat pieces.

(** Attributes of the constructs, as references. *)
Definition eventBusArn (h : string) : tstring := [GetAtt h "Arn"].
Definition bucketName (h : string) : tstring := [Ref h].
Definition roleArn (h : string) : tstring := [GetAtt h "Arn"].
Definition ref (h : string) : tstring := [Ref h].

(** ** The stack

    [this.account] and [this.region] (the latter also read as
    [cdk.Stack.of(this).region]) are the stack's environment; they come
    with the props, as [cdk.StackProps.env]. *)

Record Environment := {
  account : string;
  region : string;
}.

Record EventHubProps := {
  env : Environment;
  serviceName : string;
  stage : string;
}.

Definition EventHub_constructor (props : EventHubProps) : Build unit :=
  let this_account := account (env props) in
  let this_region := region (env props) in
  (* --- Event Bus --- *)
  let* eventBus := new_ "Bus" (CEventBus {| eventBusName := None |}) in
  new_ "BusArn" (CStringParameter {|
    parameterName := "/vimo/" +:+ stage props +:+ "/event-bus-arn";
    stringValue := eventBusArn eventBus;
    tier := Some ADVANCED |}) ;;;
  archive eventBus "ArchiveEventLake" {|
    ep_source := Some ["custom"];
    ep_detailType := None;
    ep_detail := Some [("detail-type", [MExists true])] |} ;;;
  (* --- Event Lake S3 Bucket --- *)
  let* eventLake := new_ "EventLake" (CBucket {|
    removalPolicy := Some RETAIN;
    versioned := None;
    autoDeleteObjects := None |}) in
  new_ "EventLakeName" (CStringParameter {|
    parameterName := "/vimo/" +:+ stage props +:+ "/event-lake-name";
    stringValue := bucketName eventLake;
    tier := None |}) ;;;
  (* --- Firehose Delivery Stream --- *)
  new_ "DeliveryStream" (CDeliveryStream {|
    destination := {|
      dest_bucket := eventLake;
      dataOutputPrefix := Some (template [lit this_region; lit "/"]);
      errorOutputPrefix := None;
      bufferingIntervalSeconds := None;
      bufferingSizeMiB := None |} |}) ;;;
  (* --- Glue Integration --- *)
  let* glueDatabase := new_ "EventLakeDatabase" (CDatabase {|
    db_catalogId := this_account;
    db_name := "event_lake_" +:+ stage props |}) in
  let* glueRole := new_ "GlueCrawlerRole" (CRole {|
    assumedBy := "glue.amazonaws.com";
    managedPolicies := ["service-role/AWSGlueServiceRole"] |}) in
  grantRead eventLake glueRole ;;;
  let* glueCrawler := new_ "EventLakeCrawler" (CCrawler {|
    crawler_role := roleArn glueRole;
    crawler_databaseName := ref glueDatabase;
    s3Targets := [template [lit "s3://"; bucketName eventLake; lit "/"]];
    updateBehavior := "UPDATE_IN_DATABASE";
    deleteBehavior := "DEPRECATE_IN_DATABASE" |}) in
  new_ "GlueDatabaseName" (CStringParameter {|
    parameterName := "/vimo/" +:+ stage props +:+ "/glue-database-name";
    stringValue := ref glueDatabase;
    tier := None |}) ;;;
  new_ "GlueCrawlerName" (CStringParameter {|
    parameterName := "/vimo/" +:+ stage props +:+ "/glue-crawler-name";
    stringValue := ref glueCrawler;
    tier := None |}) ;;;
  (* Glue Table with Partition Projection *)
  let* eventsTable := new_ "EventsTable" (CTable {|
    tbl_catalogId := this_account;
    tbl_databaseName := ref glueDatabase;
    tbl_name := "events";
    tableType := "EXTERNAL_TABLE";
    parameters :=
      <["projection.enabled" := lit "true"]>
      (<["projection.datehour.type" := lit "date"]>
      (<["projection.datehour.format" := lit "yyyy/MM/dd/HH"]>
      (<["projection.datehour.range" := lit "2024/01/01/00,NOW"]>
      (<["projection.datehour.interval" := lit "1"]>
      (<["projection.datehour.interval.unit" := lit "HOURS"]>
      (<["storage.location.template" :=
           template [lit "s3://"; bucketName eventLake; lit "/";
                     lit this_region; lit "/${datehour}/"]]>
      (<["case.insensitive" := lit "FALSE"]> ∅)))))));
    location :=
      template [lit "s3://"; bucketName eventLake; lit "/"; lit this_region; lit "/"];
    inputFormat := "org.apache.hadoop.mapred.TextInputFormat";
    outputFormat := "org.apache.hadoop.hive.ql.io.HiveIgnoreKeyTextOutputFormat";
    serializationLibrary := "org.openx.data.jsonserde.JsonSerDe";
    columns := [ {| col_name := "timestamp"; col_type := "bigint" |};
                 {| col_name := "type"; col_type := "string" |};
                 {| col_name := "data"; col_type := "string" |};
                 {| col_name := "from"; col_type := "string" |} ];
    partitionKeys := [ {| col_name := "datehour"; col_type := "string" |} ] |}) in
  addDependency eventsTable glueDatabase ;;;
  new_ "GlueTableName" (CStringParameter {|
    parameterName := "/vimo/" +:+ stage props +:+ "/glue-table-name";
    stringValue := ref eventsTable;
    tier := None |}) ;;;
  ret tt.

(** The stack a construction yields. *)
Definition EventHub (props : EventHubProps) : scope :=
  snd (EventHub_constructor props empty_scope).

Definition example_props : EventHubProps :=
  {| env := {| account := "123456789012"; region := "eu-west-1" |};
     serviceName := "event-hub";
     stage := "dev" |}.

(** ** Reading the stack *)

Fixpoint child_in (id : string) (cs : list (string * construct)) : option construct :=
  match cs with
  | [] => None
  | (i, c) :: cs' => if decide (i = id) then Some c else child_in id cs'
  end.

(** The construct at a path below the stack. *)
Definition child (id : string) (s : scope) : option construct :=
  child_in id (children s).

Definition ids (s : scope) : list string := (children s).*1.

Definition as_parameter (c : string * construct) : option StringParameterProps :=
  match c.2 with CStringParameter p => Some p | _ => None end.

(** The parameters the stack publishes, in declaration order. *)
Definition published (s : scope) : list StringParameterProps :=
  omap as_parameter (children s).

Definition bucket_of (id : string) (s : scope) : option BucketProps :=
  match child id s with Some (CBucket b) => Some b | _ => None end.

Definition database_of (id : string) (s : scope) : option CfnDatabaseProps :=
  match child id s with Some (CDatabase b) => Some b | _ => None end.

Definition table_of (id : string) (s : scope) : option CfnTableProps :=
  match child id s with Some (CTable b) => Some b | _ => None end.

Definition stream_of (id : string) (s : scope) : option DeliveryStreamProps :=
  match child id s with Some (CDeliveryStream b) => Some b | _ => None end.

Definition archive_of (id : string) (s : scope) : option ArchiveProps :=
  match child id s with Some (CArchive b) => Some b | _ => None end.

(** A bucket is versioned only when its props say so. *)
Definition is_versioned (b : BucketProps) : bool := default false (versioned b).

(** ** Decimal fields of a date

    The partition projection prints a [datehour] value with the declared
    date format; the functions below read such a format the way the query
    engine does: [yyyy] is the year in four digits, [MM], [dd] and [HH]
    the month, day and hour in two. *)

Definition digit (n : nat) : ascii := ascii_of_nat (48 + n mod 10).

(** The [w] low decimal digits of [n], most significant first. *)
Fixpoint low_digits (w n : nat) : string :=
  match w with
  | 0 => EmptyString
  | S w' => low_digits w' (n / 10) +:+ String (digit n) EmptyString
  end.

Fixpoint ndigits_fuel (fuel n : nat) : nat :=
  match fuel with
  | 0 => 0
  | S fuel' => if decide (n < 10) then 1 else S (ndigits_fuel fuel' (n / 10))
  end.

Definition ndigits (n : nat) : nat := ndigits_fuel n n.

(** [n] in decimal, padded with zeros on the left to at least [w] digits. *)
Definition zpad (w n : nat) : string := low_digits (max w (ndigits n)) n.

Record datehour := {
  year : nat;
  month : nat;
  day : nat;
  hour : nat;
}.

(** The date fields a format letter stands for. *)
Definition field_value (c : ascii) (t : datehour) : option nat :=
  if decide (c = "y"%char) then Some (year t)
  else if decide (c = "M"%char) then Some (month t)
  else if decide (c = "d"%char) then Some (day t)
  else if decide (c = "H"%char) then Some (hour t)
  else None.

Definition flush (pending : option (ascii * nat)) (t : datehour) : string :=
  match pending with
  | Some (c, n) =>
      match field_value c t with
      | Some v => zpad n v
      | None => EmptyString
      end
  | None => EmptyString
  end.

(** A date format such as [yyyy/MM/dd/HH]: a run of [n] equal field
    letters prints the field in at least [n] digits, any other character
    prints itself. [pending] is the run being read. *)
Fixpoint format_from (pending : option (ascii * nat)) (pat : string)
    (t : datehour) : string :=
  match pat with
  | EmptyString => flush pending t
  | String c pat' =>
      let start :=
        match field_value c t with
        | Some _ => format_from (Some (c, 1)) pat' t
        | None => String c (format_from None pat' t)
        end in
      match pending with
      | Some (c0, n) =>
          if decide (c = c0) then format_from (Some (c0, S n)) pat' t
          else flush pending t +:+ start
      | None => start
      end
  end.

Definition format_date (pat : string) (t : datehour) : string :=
  format_from None pat t.

(** ** Placeholders of a storage location template

    The query engine finds a partition's objects by replacing
    [${<partition key>}] in the table's [storage.location.template] with
    the partition's value. *)

Definition placeholder (name : string) : string := "${" +:+ name +:+ "}".

(** Replace every occurrence of [ph] in [s] by [value]; [skip] counts the
    characters of an occurrence still to be dropped. *)
Fixpoint substitute_from (skip : nat) (ph value s : string) : string :=
  match s with
  | EmptyString => EmptyString
  | String c s' =>
      match skip with
      | S k => substitute_from k ph value s'
      | 0 =>
          if String.prefix ph s
          then value +:+ substitute_from (String.length ph - 1) ph value s'
          else String c (substitute_from 0 ph value s')
      end
  end.

Definition substitute (name value s : string) : string :=
  substitute_from 0 (placeholder name) value s.

Fixpoint no_dollar (s : string) : bool :=
  match s with
  | EmptyString => true
  | String c s' => bool_decide (c ≠ "$"%char) && no_dollar s'
  end.

(** Split [s] at every [sep]. *)
Fixpoint split_on (sep : ascii) (s : string) : list string :=
  match s with
  | EmptyString => [EmptyString]
  | String c s' =>
      if decide (c = sep) then EmptyString :: split_on sep s'
      else match split_on sep s' with
           | [] => [String c EmptyString]
           | w :: ws => String c w :: ws
           end
  end.

Definition example_deployment : deployment :=
  {| physicalId := fun i => "eventhub-" +:+ i;
     attributeOf := fun i a => "arn:aws:::" +:+ i +:+ "/" +:+ a |}.

(** ** Events and the archive rule

    The bus archives the events its archive's pattern matches. A pattern
    field must be matched by the event's field of the same name; fields
    the pattern does not mention are free. *)

#[local] Set Warnings "-register-all".

Inductive json :=
| JNull
| JBool (b : bool)
| JNumber (n : Z)
| JString (s : string)
| JArray (items : list json)
| JObject (fields : list (string * json)).

(** A published event: its envelope's [source] and [detail-type], and the
    fields of its [detail] payload. *)
Record event := {
  source : string;
  detail_type : string;
  detail : gmap string json;
}.

(** The bus matches on leaf values: a field holds one when its value is a
    scalar, or an array with a leaf value in it; an object is not a leaf,
    and neither an object nor an empty array holds one. *)
Fixpoint has_leaf (v : json) : bool :=
  match v with
  | JNull | JBool _ | JNumber _ | JString _ => true
  | JArray items => existsb has_leaf items
  | JObject _ => false
  end.

(** The string [s] is a leaf value of [v]. *)
Fixpoint has_string (s : string) (v : json) : bool :=
  match v with
  | JString s' => bool_decide (s = s')
  | JArray items => existsb (has_string s) items
  | _ => false
  end.

(** [None] when the event has no such field. *)
Definition leaf_present (v : option json) : bool :=
  match v with
  | Some v => has_leaf v
  | None => false
  end.

(** One matcher against the value of a field: a literal matches a leaf
    value equal to it, [{ exists: true }] matches a field that holds a
    leaf value, [{ exists: false }] a field that holds none. *)
Definition matches_value (m : matcher) (v : option json) : bool :=
  match m with
  | MExact s => match v with Some v => has_string s v | None => false end
  | MExists true => leaf_present v
  | MExists false => negb (leaf_present v)
  end.

(** A field of a pattern lists alternatives; an absent field of the
    pattern matches everything. *)
Definition matches_envelope (alts : option (list string)) (v : string) : bool :=
  match alts with
  | None => true
  | Some l => bool_decide (v ∈ l)
  end.

Definition matches_detail (fields : option (list (string * list matcher)))
    (d : gmap string json) : bool :=
  match fields with
  | None => true
  | Some l => forallb (fun f => existsb (fun m => matches_value m (d !! f.1)) f.2) l
  end.

Definition matches (p : EventPattern) (e : event) : bool :=
  matches_envelope (ep_source p) (source e)
  && matches_envelope (ep_detailType p) (detail_type e)
  && matches_detail (ep_detail p) (detail e).

(** An event is archived when the archive rule of the stack matches it. *)
Definition archived (s : scope) (e : event) : bool :=
  match archive_of (path_in "Bus" "ArchiveEventLake") s with
  | Some a => matches (eventPattern a) e
  | None => false
  end.

(** ** Provisioning orders *)

(** The constructs a construct refers to through the properties the
    constructor passes it. References that library constructs add on
    their own (the policy a grant attaches to a role, the role of the
    delivery stream) are not in the constructor's text and not listed. *)
Definition references (c : construct) : list string :=
  match c with
  | CEventBus _ | CBucket _ | CDatabase _ | CRole _ => []
  | CArchive a => [sourceEventBus a]
  | CStringParameter p => targets (stringValue p)
  | CDeliveryStream d =>
      dest_bucket (destination d)
      :: targets (default [] (dataOutputPrefix (destination d)))
         ++ targets (default [] (errorOutputPrefix (destination d)))
  | CCrawler c =>
      targets (crawler_role c) ++ targets (crawler_databaseName c)
      ++ concat (targets <$> s3Targets c)
  | CTable t =>
      targets (tbl_databaseName t) ++ targets (location t)
      ++ concat ((fun kv => targets kv.2) <$> map_to_list (parameters t))
  end.

(** [(a, b)]: [a] needs [b] first. Explicit dependencies and references. *)
Definition edges (s : scope) : list (string * string) :=
  dependsOn s
  ++ concat ((fun c => (fun b => (c.1, b)) <$> references c.2) <$> children s).

Fixpoint index_of (x : string) (l : list string) : option nat :=
  match l with
  | [] => None
  | y :: l' => if decide (y = x) then Some 0 else S <$> index_of x l'
  end.

(** [a] is provisioned before [b]. *)
Definition before (a b : string) (order : list string) : Prop :=
  match index_of a order, index_of b order with
  | Some i, Some j => i < j
  | _, _ => False
  end.

Global Instance before_dec a b order : Decision (before a b order).
Proof. unfold before. destruct (index_of a order), (index_of b order); apply _. Defined.

(** An order the declared topology allows: every construct once, each
    after everything it depends on. *)
Definition admissible (s : scope) (order : list string) : Prop :=
  order ≡ₚ ids s ∧ Forall (fun e => before e.2 e.1 order) (edges s).

(** ** Names used by the statements *)

Inductive kind :=
| KEventBus | KArchive | KBucket | KStringParameter | KDeliveryStream
| KDatabase | KRole | KCrawler | KTable.

Definition kind_of (c : construct) : kind :=
  match c with
  | CEventBus _ => KEventBus
  | CArchive _ => KArchive
  | CBucket _ => KBucket
  | CStringParameter _ => KStringParameter
  | CDeliveryStream _ => KDeliveryStream
  | CDatabase _ => KDatabase
  | CRole _ => KRole
  | CCrawler _ => KCrawler
  | CTable _ => KTable
  end.

Definition buckets (s : scope) : list BucketProps :=
  omap (fun c => match c.2 with CBucket b => Some b | _ => None end) (children s).

(** The last path component of each published parameter. *)
Definition resource_keys : list string :=
  ["event-bus-arn"; "event-lake-name"; "glue-database-name";
   "glue-crawler-name"; "glue-table-name"].

Definition parameter_path (stage key : string) : string :=
  "/vimo/" +:+ stage +:+ "/" +:+ key.

Definition database_name (s : scope) : option string :=
  db_name <$> database_of "EventLakeDatabase" s.

(** A table parameter that is plain text. *)
Definition parameter_text (k : string) (t : CfnTableProps) : option string :=
  match parameters t !! k with
  | Some [Lit v] => Some v
  | _ => None
  end.

Definition projection_range (t : CfnTableProps) : option (list string) :=
  split_on "," <$> parameter_text "projection.datehour.range" t.

Definition with_serviceName (name : string) (p : EventHubProps) : EventHubProps :=
  {| env := env p; serviceName := name; stage := stage p |}.

Definition example_event (payload : gmap string json) : event :=
  {| source := "custom"; detail_type := "OrderCreated"; detail := payload |}.

(** The path the table's template resolves partition [t] to: the value
    of the partition key, printed in the projection's format, replaces
    the key's placeholder in the resolved storage location template. *)
Definition partition_path (d : deployment) (s : scope) (t : datehour) : option string :=
  tbl ← table_of "EventsTable" s;
  key ← head (partitionKeys tbl);
  tmpl ← parameters tbl !! "storage.location.template";
  fmt ← parameter_text ("projection." +:+ col_name key +:+ ".format") tbl;
  Some (substitute (col_name key) (format_date fmt t) (resolve d tmpl)).

Definition storage_location (d : deployment) (s : scope) : option string :=
  resolve d <$> (location <$> table_of "EventsTable" s).

(** The object store prefix the delivery stream's configuration declares:
    its destination bucket and the declared output prefix. *)
Definition stream_prefix (d : deployment) (s : scope) : option string :=
  st ← stream_of "DeliveryStream" s;
  pre ← dataOutputPrefix (destination st);
  Some ("s3://" +:+ physicalId d (dest_bucket (destination st)) +:+ "/"
        +:+ resolve d pre).

(** A path under [loc] in which no placeholder is left. *)
Definition valid_path_under (loc path : string) : bool :=
  String.prefix loc path && no_dollar path.

Definition projection_start : datehour :=
  {| year := 2024; month := 1; day := 1; hour := 0 |}.

(** ** The crawler, parameter names and the calendar *)


Definition crawler_of (id : string) (s : scope) : option CfnCrawlerProps :=
  match child id s with Some (CCrawler b) => Some b | _ => None end.

(** The object store paths the crawler inspects, at a deployment. *)
Definition crawl_paths (d : deployment) (s : scope) : list string :=
  match crawler_of "EventLakeCrawler" s with
  | Some c => resolve d <$> s3Targets c
  | None => []
  end.


(** [s] holds no [c]. *)
Fixpoint lacks (c : ascii) (s : string) : bool :=
  match s with
  | EmptyString => true
  | String x s' => bool_decide (x ≠ c) && lacks c s'
  end.

Definition parameter_names (s : scope) : list string :=
  parameterName <$> published s.

(** Modelled from the spec: the delivery service's default object naming,
    which is not code of this repository. The stack overrides none of
    it (spec 4.3, defaults apply), and the spec's layout contract has the
    stream produce [<region>/<yyyy>/<MM>/<dd>/<HH>/]: a record that
    arrives in hour [t] is written under the destination's output prefix
    followed, when that prefix holds no [!{...}] expression, by the
    arrival hour as [yyyy/MM/dd/HH/]. A prefix with an exclamation mark
    in it may hold an expression and is not modelled. *)
Definition record_path (d : deployment) (s : scope) (t : datehour) : option string :=
  st ← stream_of "DeliveryStream" s;
  let pre := resolve d (default [] (dataOutputPrefix (destination st))) in
  if lacks "!" pre
  then Some ("s3://" +:+ physicalId d (dest_bucket (destination st)) +:+ "/"
             +:+ pre +:+ format_date "yyyy/MM/dd/HH" t +:+ "/")
  else None.

(** A datehour of the calendar, with a four-digit year. *)
Definition valid_datehour (t : datehour) : Prop :=
  year t < 10 ^ 4 ∧ 1 ≤ month t ≤ 12 ∧ 1 ≤ day t ≤ 31 ∧ hour t < 24.

(** Which of two datehours comes first. *)
Definition chronological (t1 t2 : datehour) : comparison :=
  match Nat.compare (year t1) (year t2) with
  | Eq =>
      match Nat.compare (month t1) (month t2) with
      | Eq =>
          match Nat.compare (day t1) (day t2) with
          | Eq => Nat.compare (hour t1) (hour t2)
          | r => r
          end
      | r => r
      end
  | r => r
  end.

Definition example_later : datehour :=
  {| year := 2025; month := 11; day := 2; hour := 7 |}.

(** * Properties *)

(** ** String lemmas *)

Lemma append_cons (x : ascii) (a b : string) :
  String x a +:+ b = String x (a +:+ b).
Proof. reflexivity. Qed.

Lemma append_inj_l (s a b : string) : s +:+ a = s +:+ b -> a = b.
Proof. apply String.app_inj. Qed.

Lemma append_assoc (a b c : string) : (a +:+ b) +:+ c = a +:+ (b +:+ c).
Proof.
  induction a as [|x a IH]; [done|].
  rewrite !append_cons. by f_equal.
Qed.

Lemma append_nil_r (x : string) : x +:+ EmptyString = x.
Proof. induction x as [|c x IH]; [done|]. rewrite append_cons. by f_equal. Qed.

Lemma prefix_append (a b : string) : String.prefix a (a +:+ b) = true.
Proof.
  induction a as [|c a IH]; [by destruct b|].
  rewrite append_cons. simpl. by destruct (ascii_dec c c).
Qed.

Lemma prefix_cons_ne (x c : ascii) (a s : string) :
  x ≠ c -> String.prefix (String x a) (String c s) = false.
Proof.
  intros Hne.
  change (String.prefix (String x a) (String c s))
    with (match ascii_dec x c with
          | left _ => String.prefix a s
          | right _ => false
          end).
  by destruct (ascii_dec x c).
Qed.

Lemma parameter_path_inj (st k1 k2 : string) :
  parameter_path st k1 = parameter_path st k2 -> k1 = k2.
Proof.
  unfold parameter_path. intros H.
  apply append_inj_l in H. apply append_inj_l in H.
  by apply (append_inj_l "/") in H.
Qed.

(** ** The event lake bucket *)

(** C8. Whatever the serviceName, stage, region and account, the
    [EventLake] bucket is declared with removal policy RETAIN, and it is
    the only bucket of the stack. *)
Theorem event_lake_removal_policy_retain (p : EventHubProps) :
  removalPolicy <$> bucket_of "EventLake" (EventHub p) = Some (Some RETAIN)
  ∧ removalPolicy <$> buckets (EventHub p) = [Some RETAIN].
Proof. split; reflexivity. Qed.

(** C9, as the code has it. The [EventLake] bucket is declared with the
    retain policy only: its props carry no [versioned] setting, so the
    bucket is unversioned. *)
Theorem event_lake_not_versioned (p : EventHubProps) :
  bucket_of "EventLake" (EventHub p)
    = Some {| removalPolicy := Some RETAIN; versioned := None;
              autoDeleteObjects := None |}
  ∧ is_versioned <$> bucket_of "EventLake" (EventHub p) = Some false.
Proof. split; reflexivity. Qed.

(** C9, refuted as stated: at the example props the declared bucket
    configuration does not enable versioning. *)
Lemma event_lake_versioning_not_declared :
  versioned <$> bucket_of "EventLake" (EventHub example_props) ≠ Some (Some true)
  ∧ is_versioned <$> bucket_of "EventLake" (EventHub example_props) ≠ Some true.
Proof. split; discriminate. Qed.

(** ** The catalog database *)

Lemma database_name_stage (p : EventHubProps) :
  database_name (EventHub p) = Some ("event_lake_" +:+ stage p).
Proof. reflexivity. Qed.

(** C7. The database name is a function of the stage alone, and distinct
    stages give distinct names. *)
Theorem database_name_injective (p1 p2 : EventHubProps) :
  database_name (EventHub p1) = database_name (EventHub p2) <-> stage p1 = stage p2.
Proof.
  rewrite !database_name_stage. split.
  - intros H%(inj Some). exact (append_inj_l _ _ _ H).
  - by intros ->.
Qed.

Lemma database_name_injective_witness :
  stage example_props = stage (with_serviceName "other" example_props)
  ∧ database_name (EventHub example_props)
    = database_name (EventHub (with_serviceName "other" example_props)).
Proof.
  split; [reflexivity|].
  apply (proj2 (database_name_injective example_props
                  (with_serviceName "other" example_props))).
  reflexivity.
Defined.

(** ** Independence of the service name *)

(** C10. Two constructions that differ only in [serviceName] declare the
    same stack: the same constructs with the same properties, the same
    grants and the same dependencies. *)
Theorem serviceName_not_used (e : Environment) (name1 name2 st : string) :
  EventHub {| env := e; serviceName := name1; stage := st |}
  = EventHub {| env := e; serviceName := name2; stage := st |}.
Proof. unfold EventHub, EventHub_constructor. cbn [stage env]. reflexivity. Qed.

(** ** The events table *)

(** C5. The events table has the four columns, the single partition key
    [datehour : string], and an hourly date projection over [datehour]
    from 2024/01/01/00 to NOW. *)
Theorem events_table_schema (p : EventHubProps) :
  ∃ t, table_of "EventsTable" (EventHub p) = Some t
    ∧ columns t = [ {| col_name := "timestamp"; col_type := "bigint" |};
                    {| col_name := "type"; col_type := "string" |};
                    {| col_name := "data"; col_type := "string" |};
                    {| col_name := "from"; col_type := "string" |} ]
    ∧ partitionKeys t = [ {| col_name := "datehour"; col_type := "string" |} ]
    ∧ parameter_text "projection.enabled" t = Some "true"
    ∧ parameter_text "projection.datehour.type" t = Some "date"
    ∧ parameter_text "projection.datehour.interval" t = Some "1"
    ∧ parameter_text "projection.datehour.interval.unit" t = Some "HOURS"
    ∧ projection_range t = Some ["2024/01/01/00"; "NOW"].
Proof.
  eexists. split; [reflexivity|].
  repeat split; vm_compute; reflexivity.
Qed.

(** ** Published parameters *)

(** C4. For every stage the stack publishes exactly five parameters, at
    [/vimo/<stage>/<key>] for the five resource keys; their values are the
    bus ARN, the bucket name, and the database, crawler and table names,
    each a construct of the right kind; the five paths are pairwise
    distinct, and so are the five values. *)
Theorem published_parameters (p : EventHubProps) :
  parameterName <$> published (EventHub p) = parameter_path (stage p) <$> resource_keys
  ∧ stringValue <$> published (EventHub p)
    = [eventBusArn "Bus"; bucketName "EventLake"; ref "EventLakeDatabase";
       ref "EventLakeCrawler"; ref "EventsTable"]
  ∧ kind_of <$> child "Bus" (EventHub p) = Some KEventBus
  ∧ kind_of <$> child "EventLake" (EventHub p) = Some KBucket
  ∧ kind_of <$> child "EventLakeDatabase" (EventHub p) = Some KDatabase
  ∧ kind_of <$> child "EventLakeCrawler" (EventHub p) = Some KCrawler
  ∧ kind_of <$> child "EventsTable" (EventHub p) = Some KTable
  ∧ NoDup (parameterName <$> published (EventHub p))
  ∧ NoDup (stringValue <$> published (EventHub p)).
Proof.
  assert (Hn : parameterName <$> published (EventHub p)
               = parameter_path (stage p) <$> resource_keys) by reflexivity.
  split; [exact Hn|]. do 6 (split; [reflexivity|]). split.
  - rewrite Hn. apply NoDup_fmap_2.
    + intros k1 k2. apply parameter_path_inj.
    + unfold resource_keys. compute_done.
  - compute_done.
Qed.

(** ** The archive rule *)

Lemma archive_declared (p : EventHubProps) :
  archive_of (path_in "Bus" "ArchiveEventLake") (EventHub p)
  = Some {| sourceEventBus := "Bus";
            eventPattern := {| ep_source := Some ["custom"];
                               ep_detailType := None;
                               ep_detail := Some [("detail-type", [MExists true])] |};
            retentionDays := None |}.
Proof. reflexivity. Qed.

Lemma archived_eq (p : EventHubProps) (e : event) :
  archived (EventHub p) e
  = bool_decide (source e = "custom") && leaf_present (detail e !! "detail-type").
Proof.
  unfold archived. rewrite archive_declared.
  unfold matches, matches_envelope, matches_detail.
  cbn [eventPattern ep_source ep_detailType ep_detail forallb existsb fst snd
       matches_value].
  rewrite !andb_true_r, orb_false_r. f_equal.
  apply bool_decide_ext. by rewrite list_elem_of_singleton.
Qed.

Lemma leaf_present_spec (o : option json) :
  leaf_present o = true <-> ∃ v, o = Some v ∧ has_leaf v = true.
Proof.
  destruct o as [v|]; cbn [leaf_present].
  - split; [eauto|]. by intros (? & [= <-] & ?).
  - split; [done|]. by intros (? & ? & ?).
Qed.

(** C3, as the code has it. The archive rule, which belongs to the
    stack's bus, matches exactly the events whose source is [custom] and
    whose [detail] payload has a [detail-type] field that holds a value;
    any other event is not archived. The envelope's own detail-type is
    not tested. *)
Theorem archive_rule_matches (p : EventHubProps) (e : event) :
  sourceEventBus <$> archive_of (path_in "Bus" "ArchiveEventLake") (EventHub p)
    = Some "Bus"
  ∧ (archived (EventHub p) e = true
     <-> source e = "custom"
         ∧ ∃ v, detail e !! "detail-type" = Some v ∧ has_leaf v = true)
  ∧ (archived (EventHub p) e = false
     <-> ¬ (source e = "custom"
            ∧ ∃ v, detail e !! "detail-type" = Some v ∧ has_leaf v = true)).
Proof.
  assert (H : archived (EventHub p) e = true
              <-> source e = "custom"
                  ∧ ∃ v, detail e !! "detail-type" = Some v ∧ has_leaf v = true).
  { by rewrite archived_eq, andb_true_iff, bool_decide_eq_true, leaf_present_spec. }
  split; [by rewrite archive_declared|]. split; [exact H|].
  rewrite <- H. symmetry. apply not_true_iff_false.
Qed.

(** C3, refuted as stated: an event whose source is [custom] and whose
    envelope has a detail-type is not archived when its payload has no
    [detail-type] field. *)
Lemma archive_rule_ignores_envelope_detail_type :
  source (example_event ∅) = "custom"
  ∧ detail_type (example_event ∅) = "OrderCreated"
  ∧ archived (EventHub example_props) (example_event ∅) = false.
Proof. repeat split; reflexivity. Qed.

(** What the rule does and does not take for a [detail-type] field. *)
Example archive_rule_examples :
  archived (EventHub example_props)
    (example_event (<["detail-type" := JString "OrderCreated"]> ∅)) = true
  ∧ archived (EventHub example_props)
      (example_event (<["detail-type" := JArray [JNull]]> ∅)) = true
  ∧ archived (EventHub example_props)
      (example_event (<["detail-type" := JObject [("name", JString "x")]]> ∅)) = false
  ∧ archived (EventHub example_props)
      (example_event (<["detail-type" := JArray []]> ∅)) = false
  ∧ archived (EventHub example_props)
      {| source := "orders"; detail_type := "OrderCreated";
         detail := <["detail-type" := JString "OrderCreated"]> ∅ |} = false.
Proof. repeat split; reflexivity. Qed.

(** ** Provisioning order *)

Lemma construct_ids_distinct (p : EventHubProps) : NoDup (ids (EventHub p)).
Proof. compute_done. Qed.

Lemma declared_dependency (p : EventHubProps) :
  dependsOn (EventHub p) = [("EventsTable", "EventLakeDatabase")].
Proof. reflexivity. Qed.

(** The order in which the constructor declares the constructs is one
    the topology allows. *)
Lemma declaration_order_admissible :
  admissible (EventHub example_props) (ids (EventHub example_props)).
Proof. split; [reflexivity|compute_done]. Qed.

Lemma respects_declared_dependency (p : EventHubProps) (order : list string) :
  admissible (EventHub p) order -> before "EventLakeDatabase" "EventsTable" order.
Proof.
  intros [_ Hedges]. unfold edges in Hedges.
  apply Forall_app in Hedges as [Hdeps _].
  rewrite declared_dependency in Hdeps.
  inversion Hdeps as [|? ? Hb _]. exact Hb.
Qed.

(** C6. The events table declares a dependency on the catalog database,
    the table and the database being the constructs of these names, and
    in every admissible order the database comes before the table. *)
Theorem table_after_database (p : EventHubProps) (order : list string) :
  admissible (EventHub p) order ->
  ("EventsTable", "EventLakeDatabase") ∈ dependsOn (EventHub p)
  ∧ kind_of <$> child "EventsTable" (EventHub p) = Some KTable
  ∧ kind_of <$> child "EventLakeDatabase" (EventHub p) = Some KDatabase
  ∧ before "EventLakeDatabase" "EventsTable" order.
Proof.
  intros Hadm. rewrite declared_dependency.
  split; [apply list_elem_of_singleton; reflexivity|].
  do 2 (split; [reflexivity|]).
  exact (respects_declared_dependency p order Hadm).
Qed.

Lemma table_after_database_witness :
  admissible (EventHub example_props) (ids (EventHub example_props))
  ∧ before "EventLakeDatabase" "EventsTable" (ids (EventHub example_props)).
Proof.
  assert (H : admissible (EventHub example_props) (ids (EventHub example_props))).
  { split; [reflexivity|compute_done]. }
  split; [exact H|].
  exact (proj2 (proj2 (proj2 (table_after_database example_props _ H)))).
Defined.

(** An order that creates the table first is not admissible. *)
Example table_first_not_admissible :
  ¬ admissible (EventHub example_props)
      ("EventsTable" :: filter (fun i => i ≠ "EventsTable") (ids (EventHub example_props))).
Proof.
  intros H. apply respects_declared_dependency in H.
  vm_compute in H. lia.
Qed.

(** ** Date formats *)

Lemma format_yyyy_MM_dd_HH (t : datehour) :
  format_date "yyyy/MM/dd/HH" t
  = zpad 4 (year t) +:+ "/" +:+ zpad 2 (month t) +:+ "/"
    +:+ zpad 2 (day t) +:+ "/" +:+ zpad 2 (hour t).
Proof. vm_compute. reflexivity. Qed.

Example format_examples :
  format_date "yyyy/MM/dd/HH" projection_start = "2024/01/01/00"
  ∧ format_date "yyyy/MM/dd/HH" {| year := 2025; month := 11; day := 2; hour := 7 |}
    = "2025/11/02/07"
  ∧ format_date "yyyy-M-d HH" {| year := 987; month := 3; day := 14; hour := 23 |}
    = "0987-3-14 23".
Proof. repeat split; vm_compute; reflexivity. Qed.

Lemma no_dollar_app (a b : string) :
  no_dollar (a +:+ b) = no_dollar a && no_dollar b.
Proof.
  induction a as [|c a IH]; [done|].
  rewrite append_cons. cbn [no_dollar]. by rewrite IH, andb_assoc.
Qed.

Lemma digit_not_dollar (n : nat) : digit n ≠ "$"%char.
Proof.
  unfold digit. pose proof (Nat.mod_upper_bound n 10) as Hlt.
  destruct (n mod 10) as [|[|[|[|[|[|[|[|[|[|m]]]]]]]]]]; try discriminate.
  lia.
Qed.

Lemma no_dollar_low_digits (w n : nat) : no_dollar (low_digits w n) = true.
Proof.
  revert n. induction w as [|w IH]; intros n; [done|].
  cbn [low_digits]. rewrite no_dollar_app, IH. cbn [no_dollar andb].
  rewrite andb_true_r. apply bool_decide_eq_true, digit_not_dollar.
Qed.

Lemma no_dollar_zpad (w n : nat) : no_dollar (zpad w n) = true.
Proof. apply no_dollar_low_digits. Qed.

Create Rewrite HintDb plain.
#[local] Hint Rewrite no_dollar_app no_dollar_zpad : plain.

Lemma no_dollar_format (t : datehour) :
  no_dollar (format_date "yyyy/MM/dd/HH" t) = true.
Proof. rewrite format_yyyy_MM_dd_HH. autorewrite with plain. reflexivity. Qed.

Lemma lacks_app (c : ascii) (a b : string) :
  lacks c (a +:+ b) = lacks c a && lacks c b.
Proof.
  induction a as [|x a IH]; [done|].
  rewrite append_cons. cbn [lacks]. by rewrite IH, andb_assoc.
Qed.

Lemma lacks_cons_same (c : ascii) (s : string) : lacks c (String c s) = false.
Proof. cbn [lacks]. by rewrite bool_decide_eq_false_2 by auto. Qed.

(** ** Substitution into a template *)

Section Substitution.

Variables ph v : string.

Lemma substitute_from_cons (c : ascii) (s : string) :
  substitute_from 0 ph v (String c s)
  = if String.prefix ph (String c s)
    then v +:+ substitute_from (String.length ph - 1) ph v s
    else String c (substitute_from 0 ph v s).
Proof. reflexivity. Qed.

Lemma substitute_skip (x rest : string) :
  substitute_from (String.length x) ph v (x +:+ rest) = substitute_from 0 ph v rest.
Proof. induction x as [|c x IH]; [done|]. rewrite append_cons. exact IH. Qed.

(** From here on the placeholder starts with a dollar sign. *)
Variable body : string.
Hypothesis ph_dollar : ph = String "$" body.

(** Text without a dollar sign holds no placeholder. *)
Lemma substitute_plain (a rest : string) :
  no_dollar a = true ->
  substitute_from 0 ph v (a +:+ rest) = a +:+ substitute_from 0 ph v rest.
Proof.
  induction a as [|c a IH]; [done|].
  cbn [no_dollar]. intros [Hc Ha]%andb_true_iff. apply bool_decide_eq_true in Hc.
  rewrite !append_cons, substitute_from_cons.
  rewrite ph_dollar at 1. rewrite prefix_cons_ne by congruence.
  by rewrite IH.
Qed.

Lemma substitute_occurrence (rest : string) :
  substitute_from 0 ph v (ph +:+ rest) = v +:+ substitute_from 0 ph v rest.
Proof.
  assert (Hlen : String.length ph - 1 = String.length body)
    by (rewrite ph_dollar; cbn [String.length]; lia).
  assert (Hph : ph +:+ rest = String "$" (body +:+ rest))
    by (by rewrite ph_dollar).
  rewrite Hph, substitute_from_cons, <- Hph, prefix_append, Hlen.
  by rewrite substitute_skip.
Qed.

Lemma substitute_whole (a b : string) :
  no_dollar a = true -> no_dollar b = true ->
  substitute_from 0 ph v (a +:+ ph +:+ b) = a +:+ v +:+ b.
Proof.
  intros Ha Hb.
  rewrite substitute_plain, substitute_occurrence by done.
  pose proof (substitute_plain b EmptyString Hb) as H.
  rewrite !append_nil_r in H. by rewrite H.
Qed.

End Substitution.

(** The one placeholder of a template whose other text is plain. *)
Lemma substitute_template (name v a b : string) :
  no_dollar a = true -> no_dollar b = true ->
  substitute name v (a +:+ placeholder name +:+ b) = a +:+ v +:+ b.
Proof.
  intros Ha Hb. unfold substitute.
  by apply (substitute_whole _ v ("{" +:+ name +:+ "}")).
Qed.

Example substitute_examples :
  substitute "datehour" "2024/01/01/00" "s3://b/r/${datehour}/"
    = "s3://b/r/2024/01/01/00/"
  ∧ substitute "datehour" "x" "${date}/${datehour}${datehour}$" = "${date}/xx$".
Proof. split; vm_compute; reflexivity. Qed.

(** ** The events table's paths *)

Lemma events_table_declared (p : EventHubProps) :
  ∃ tbl, table_of "EventsTable" (EventHub p) = Some tbl
    ∧ partitionKeys tbl = [ {| col_name := "datehour"; col_type := "string" |} ]
    ∧ parameters tbl !! "storage.location.template"
      = Some (template [lit "s3://"; bucketName "EventLake"; lit "/";
                        lit (region (env p)); lit "/${datehour}/"])
    ∧ parameter_text "projection.datehour.format" tbl = Some "yyyy/MM/dd/HH"
    ∧ location tbl
      = template [lit "s3://"; bucketName "EventLake"; lit "/";
                  lit (region (env p)); lit "/"].
Proof.
  eexists. split; [reflexivity|].
  repeat split; vm_compute; reflexivity.
Qed.

Lemma stream_declared (p : EventHubProps) :
  stream_of "DeliveryStream" (EventHub p)
  = Some {| destination := {|
              dest_bucket := "EventLake";
              dataOutputPrefix := Some (template [lit (region (env p)); lit "/"]);
              errorOutputPrefix := None;
              bufferingIntervalSeconds := None;
              bufferingSizeMiB := None |} |}.
Proof. reflexivity. Qed.

Section Paths.

Context (p : EventHubProps) (d : deployment).

(** The event lake's path in the object store, at this deployment. *)
Let lake : string :=
  "s3://" +:+ physicalId d "EventLake" +:+ "/" +:+ region (env p) +:+ "/".

Lemma resolve_location :
  resolve d (template [lit "s3://"; bucketName "EventLake"; lit "/";
                       lit (region (env p)); lit "/"])
  = lake.
Proof.
  cbn [template concat lit bucketName app resolve resolve_part].
  by rewrite append_nil_r.
Qed.

Lemma resolve_template :
  resolve d (template [lit "s3://"; bucketName "EventLake"; lit "/";
                       lit (region (env p)); lit "/${datehour}/"])
  = lake +:+ placeholder "datehour" +:+ "/".
Proof.
  cbn [template concat lit bucketName app resolve resolve_part].
  unfold lake. rewrite append_nil_r, !append_assoc.
  reflexivity.
Qed.

Lemma storage_location_resolved : storage_location d (EventHub p) = Some lake.
Proof.
  destruct (events_table_declared p) as (tbl & Ht & _ & _ & _ & Hloc).
  unfold storage_location. rewrite Ht. cbn [fmap option_fmap option_map].
  by rewrite Hloc, resolve_location.
Qed.

Lemma stream_prefix_resolved : stream_prefix d (EventHub p) = Some lake.
Proof.
  unfold stream_prefix. rewrite stream_declared.
  cbn [mbind option_bind destination dataOutputPrefix dest_bucket
       template concat lit app resolve resolve_part].
  by rewrite append_nil_r.
Qed.

(** Bucket names and regions hold no dollar sign. *)
Hypothesis bucket_plain : no_dollar (physicalId d "EventLake") = true.
Hypothesis region_plain : no_dollar (region (env p)) = true.

Lemma lake_plain : no_dollar lake = true.
Proof.
  unfold lake. autorewrite with plain.
  rewrite bucket_plain, region_plain. reflexivity.
Qed.

Lemma partition_path_resolved (t : datehour) :
  partition_path d (EventHub p) t
  = Some (lake +:+ format_date "yyyy/MM/dd/HH" t +:+ "/").
Proof.
  destruct (events_table_declared p) as (tbl & Ht & Hk & Htmpl & Hfmt & _).
  unfold partition_path. rewrite Ht. cbn [mbind option_bind].
  rewrite Hk. cbn [head col_name mbind option_bind].
  rewrite Htmpl. cbn [mbind option_bind].
  change ("projection." +:+ "datehour" +:+ ".format") with "projection.datehour.format".
  rewrite Hfmt. cbn [mbind option_bind].
  rewrite resolve_template. f_equal.
  apply substitute_template; [apply lake_plain|reflexivity].
Qed.

(** C2. For every value of the partition key printed in the projection's
    format [yyyy/MM/dd/HH], the storage location template resolves to the
    table's storage location followed by exactly that value and a slash:
    a path under the table's location with no placeholder left. The
    bucket name and the region are taken to hold no dollar sign. *)
Theorem template_consistent_with_projection (t : datehour) :
  ∃ tbl loc path,
    table_of "EventsTable" (EventHub p) = Some tbl
    ∧ parameter_text "projection.datehour.format" tbl = Some "yyyy/MM/dd/HH"
    ∧ storage_location d (EventHub p) = Some loc
    ∧ partition_path d (EventHub p) t = Some path
    ∧ path = loc +:+ format_date "yyyy/MM/dd/HH" t +:+ "/"
    ∧ format_date "yyyy/MM/dd/HH" t
      = zpad 4 (year t) +:+ "/" +:+ zpad 2 (month t) +:+ "/"
        +:+ zpad 2 (day t) +:+ "/" +:+ zpad 2 (hour t)
    ∧ valid_path_under loc path = true.
Proof.
  destruct (events_table_declared p) as (tbl & Ht & _ & _ & Hfmt & _).
  exists tbl, lake. eexists.
  split; [exact Ht|]. split; [exact Hfmt|].
  split; [apply storage_location_resolved|].
  split; [apply partition_path_resolved|].
  split; [reflexivity|]. split; [apply format_yyyy_MM_dd_HH|].
  unfold valid_path_under. rewrite prefix_append.
  rewrite !no_dollar_app, lake_plain, no_dollar_format. reflexivity.
Qed.

(** Regions hold no exclamation mark, so the declared output prefix holds
    no expression. *)
Hypothesis region_no_expression : lacks "!" (region (env p)) = true.

Lemma record_path_resolved (t : datehour) :
  record_path d (EventHub p) t
  = Some (lake +:+ format_date "yyyy/MM/dd/HH" t +:+ "/").
Proof.
  unfold record_path. rewrite stream_declared.
  cbn [mbind option_bind destination dataOutputPrefix dest_bucket default
       from_option id template concat lit app resolve resolve_part].
  rewrite append_nil_r, lacks_app, region_no_expression.
  cbn [lacks andb]. rewrite bool_decide_eq_true_2 by discriminate.
  cbn [andb]. unfold lake. by rewrite !append_assoc.
Qed.

(** C1. The delivery stream declares one destination, the event lake
    bucket, with output prefix [<region>/] and nothing else (no error
    prefix, no buffering override), so the service's default naming
    applies: a record arriving in any hour is written under
    [s3://<bucket>/<region>/<yyyy>/<MM>/<dd>/<HH>/], and this is, character
    for character, the path the table's storage location template
    resolves the partition of that hour to. *)
Theorem record_path_is_partition_path (t : datehour) :
  ∃ st path,
    stream_of "DeliveryStream" (EventHub p) = Some st
    ∧ dest_bucket (destination st) = "EventLake"
    ∧ dataOutputPrefix (destination st)
      = Some (template [lit (region (env p)); lit "/"])
    ∧ errorOutputPrefix (destination st) = None
    ∧ bufferingIntervalSeconds (destination st) = None
    ∧ bufferingSizeMiB (destination st) = None
    ∧ record_path d (EventHub p) t = Some path
    ∧ partition_path d (EventHub p) t = Some path
    ∧ path = "s3://" +:+ physicalId d "EventLake" +:+ "/" +:+ region (env p) +:+ "/"
             +:+ zpad 4 (year t) +:+ "/" +:+ zpad 2 (month t) +:+ "/"
             +:+ zpad 2 (day t) +:+ "/" +:+ zpad 2 (hour t) +:+ "/".
Proof.
  eexists. exists (lake +:+ format_date "yyyy/MM/dd/HH" t +:+ "/").
  split; [apply stream_declared|]. do 5 (split; [reflexivity|]).
  split; [apply record_path_resolved|].
  split; [apply partition_path_resolved|].
  unfold lake. rewrite format_yyyy_MM_dd_HH. by rewrite !append_assoc.
Qed.

End Paths.

Lemma template_consistent_with_projection_witness :
  no_dollar (physicalId example_deployment "EventLake") = true
  ∧ no_dollar (region (env example_props)) = true
  ∧ ∃ tbl loc path,
      table_of "EventsTable" (EventHub example_props) = Some tbl
      ∧ parameter_text "projection.datehour.format" tbl = Some "yyyy/MM/dd/HH"
      ∧ storage_location example_deployment (EventHub example_props) = Some loc
      ∧ partition_path example_deployment (EventHub example_props) projection_start
        = Some path
      ∧ path = loc +:+ format_date "yyyy/MM/dd/HH" projection_start +:+ "/"
      ∧ format_date "yyyy/MM/dd/HH" projection_start
        = zpad 4 (year projection_start) +:+ "/"
          +:+ zpad 2 (month projection_start) +:+ "/"
          +:+ zpad 2 (day projection_start) +:+ "/"
          +:+ zpad 2 (hour projection_start)
      ∧ valid_path_under loc path = true.
Proof.
  split; [reflexivity|]. split; [reflexivity|].
  apply (template_consistent_with_projection example_props example_deployment);
    reflexivity.
Defined.

(** The first partition of the projection, at the example deployment. *)
Example first_partition_path :
  partition_path example_deployment (EventHub example_props) projection_start
    = Some "s3://eventhub-EventLake/eu-west-1/2024/01/01/00/"
  ∧ storage_location example_deployment (EventHub example_props)
    = Some "s3://eventhub-EventLake/eu-west-1/".
Proof. split; vm_compute; reflexivity. Qed.

Lemma record_path_is_partition_path_witness :
  no_dollar (physicalId example_deployment "EventLake") = true
  ∧ no_dollar (region (env example_props)) = true
  ∧ lacks "!" (region (env example_props)) = true
  ∧ ∃ st path,
      stream_of "DeliveryStream" (EventHub example_props) = Some st
      ∧ dest_bucket (destination st) = "EventLake"
      ∧ dataOutputPrefix (destination st)
        = Some (template [lit (region (env example_props)); lit "/"])
      ∧ errorOutputPrefix (destination st) = None
      ∧ bufferingIntervalSeconds (destination st) = None
      ∧ bufferingSizeMiB (destination st) = None
      ∧ record_path example_deployment (EventHub example_props) projection_start
        = Some path
      ∧ partition_path example_deployment (EventHub example_props) projection_start
        = Some path
      ∧ path = "s3://" +:+ physicalId example_deployment "EventLake" +:+ "/"
               +:+ region (env example_props) +:+ "/"
               +:+ zpad 4 (year projection_start) +:+ "/"
               +:+ zpad 2 (month projection_start) +:+ "/"
               +:+ zpad 2 (day projection_start) +:+ "/"
               +:+ zpad 2 (hour projection_start) +:+ "/".
Proof.
  split; [reflexivity|]. split; [reflexivity|]. split; [reflexivity|].
  apply (record_path_is_partition_path example_props example_deployment);
    reflexivity.
Defined.

(** A record of the first hour of the projection, at the example
    deployment: the declared prefix, and where the record goes. *)
Example first_record_path :
  stream_prefix example_deployment (EventHub example_props)
    = Some "s3://eventhub-EventLake/eu-west-1/"
  ∧ record_path example_deployment (EventHub example_props) projection_start
    = Some "s3://eventhub-EventLake/eu-west-1/2024/01/01/00/".
Proof. split; vm_compute; reflexivity. Qed.

(** * Further properties of the stack *)

(** ** The crawler *)

Lemma crawler_declared (p : EventHubProps) :
  crawler_of "EventLakeCrawler" (EventHub p)
  = Some {| crawler_role := roleArn "GlueCrawlerRole";
            crawler_databaseName := ref "EventLakeDatabase";
            s3Targets := [template [lit "s3://"; bucketName "EventLake"; lit "/"]];
            updateBehavior := "UPDATE_IN_DATABASE";
            deleteBehavior := "DEPRECATE_IN_DATABASE" |}.
Proof. reflexivity. Qed.


(** X4. The crawler and the events table name the same database, the
    stack's own, and the table is registered in the catalog of that
    database, the stack's account. *)
Theorem crawler_and_table_share_database (p : EventHubProps) :
  ∃ c t db,
    crawler_of "EventLakeCrawler" (EventHub p) = Some c
    ∧ table_of "EventsTable" (EventHub p) = Some t
    ∧ database_of "EventLakeDatabase" (EventHub p) = Some db
    ∧ crawler_databaseName c = tbl_databaseName t
    ∧ targets (tbl_databaseName t) = ["EventLakeDatabase"]
    ∧ tbl_catalogId t = db_catalogId db
    ∧ db_catalogId db = account (env p).
Proof.
  do 3 eexists. split; [apply crawler_declared|].
  split; [reflexivity|]. split; [reflexivity|].
  repeat split; reflexivity.
Qed.

Section Crawl.
Context (p : EventHubProps) (d : deployment).

Lemma crawl_paths_resolved :
  crawl_paths d (EventHub p) = ["s3://" +:+ physicalId d "EventLake" +:+ "/"].
Proof.
  unfold crawl_paths. rewrite crawler_declared.
  cbn [s3Targets fmap list_fmap template concat lit bucketName app resolve resolve_part].
  by rewrite append_nil_r.
Qed.

Hypothesis bucket_plain : no_dollar (physicalId d "EventLake") = true.
Hypothesis region_plain : no_dollar (region (env p)) = true.

(** X2. The crawler's one target is the root of the event lake bucket,
    [s3://<bucket>/]: the table's storage location, the prefix the
    delivery stream declares and every partition path lie below it. *)
Theorem crawler_covers_the_lake (t : datehour) :
  ∃ root loc pre path,
    crawl_paths d (EventHub p) = [root]
    ∧ root = "s3://" +:+ physicalId d "EventLake" +:+ "/"
    ∧ storage_location d (EventHub p) = Some loc
    ∧ stream_prefix d (EventHub p) = Some pre
    ∧ partition_path d (EventHub p) t = Some path
    ∧ String.prefix root loc = true
    ∧ String.prefix root pre = true
    ∧ String.prefix root path = true.
Proof.
  do 4 eexists.
  split; [apply crawl_paths_resolved|]. split; [reflexivity|].
  split; [apply storage_location_resolved|].
  split; [apply stream_prefix_resolved|].
  split; [by apply partition_path_resolved|].
  assert (H : ∀ s rest,
             s = ("s3://" +:+ physicalId d "EventLake" +:+ "/") +:+ rest ->
             String.prefix ("s3://" +:+ physicalId d "EventLake" +:+ "/") s = true)
    by (intros ? ? ->; apply prefix_append).
  split; [apply (H _ (region (env p) +:+ "/")); by rewrite !append_assoc|].
  split; [apply (H _ (region (env p) +:+ "/")); by rewrite !append_assoc|].
  apply (H _ (region (env p) +:+ "/" +:+ format_date "yyyy/MM/dd/HH" t +:+ "/")).
  by rewrite !append_assoc.
Qed.
End Crawl.

Lemma crawler_covers_the_lake_witness :
  no_dollar (physicalId example_deployment "EventLake") = true
  ∧ no_dollar (region (env example_props)) = true
  ∧ ∃ root loc pre path,
      crawl_paths example_deployment (EventHub example_props) = [root]
      ∧ root = "s3://" +:+ physicalId example_deployment "EventLake" +:+ "/"
      ∧ storage_location example_deployment (EventHub example_props) = Some loc
      ∧ stream_prefix example_deployment (EventHub example_props) = Some pre
      ∧ partition_path example_deployment (EventHub example_props) projection_start
        = Some path
      ∧ String.prefix root loc = true
      ∧ String.prefix root pre = true
      ∧ String.prefix root path = true.
Proof.
  split; [reflexivity|]. split; [reflexivity|].
  apply (crawler_covers_the_lake example_props example_deployment); reflexivity.
Defined.

(** ** Parameter names across stages *)

(** The text after the last separator determines the split. *)
Lemma last_segment_inj (sep : ascii) (a b k1 k2 : string) :
  lacks sep k1 = true -> lacks sep k2 = true ->
  a +:+ String sep k1 = b +:+ String sep k2 -> a = b ∧ k1 = k2.
Proof.
  intros H1 H2. revert b. induction a as [|x a IH]; intros [|y b] Heq.
  - by injection Heq as ->.
  - rewrite append_cons in Heq. injection Heq as -> ->.
    by rewrite lacks_app, lacks_cons_same, andb_false_r in H1.
  - rewrite append_cons in Heq. injection Heq as -> <-.
    by rewrite lacks_app, lacks_cons_same, andb_false_r in H2.
  - rewrite !append_cons in Heq. injection Heq as -> Heq.
    destruct (IH _ Heq) as [-> ->]. done.
Qed.

Lemma parameter_names_stage (p : EventHubProps) :
  parameter_names (EventHub p) = parameter_path (stage p) <$> resource_keys.
Proof. reflexivity. Qed.

Lemma resource_keys_lack_slash : Forall (fun k => lacks "/" k = true) resource_keys.
Proof. repeat constructor. Qed.

(** X5. Two stacks that publish a parameter of the same name have the
    same stage: stacks of different stages never collide on a parameter
    name, whatever the stage strings are. *)
Theorem parameter_names_disjoint_across_stages (p1 p2 : EventHubProps) (n : string) :
  n ∈ parameter_names (EventHub p1) ->
  n ∈ parameter_names (EventHub p2) ->
  stage p1 = stage p2.
Proof.
  rewrite !parameter_names_stage.
  intros (k1 & -> & Hk1)%list_elem_of_fmap (k2 & Heq & Hk2)%list_elem_of_fmap.
  pose proof resource_keys_lack_slash as Hall.
  rewrite Forall_forall in Hall.
  unfold parameter_path in Heq. apply append_inj_l in Heq.
  change ("/" +:+ k1) with (String "/" k1) in Heq.
  change ("/" +:+ k2) with (String "/" k2) in Heq.
  by destruct (last_segment_inj "/" _ _ k1 k2 (Hall _ Hk1) (Hall _ Hk2) Heq).
Qed.

Lemma parameter_names_disjoint_across_stages_witness :
  "/vimo/dev/event-bus-arn" ∈ parameter_names (EventHub example_props)
  ∧ "/vimo/dev/event-bus-arn"
    ∈ parameter_names (EventHub (with_serviceName "other" example_props))
  ∧ stage example_props = stage (with_serviceName "other" example_props).
Proof.
  assert (H1 : "/vimo/dev/event-bus-arn" ∈ parameter_names (EventHub example_props))
    by (rewrite parameter_names_stage; apply list_elem_of_here).
  assert (H2 : "/vimo/dev/event-bus-arn"
               ∈ parameter_names (EventHub (with_serviceName "other" example_props)))
    by (rewrite parameter_names_stage; apply list_elem_of_here).
  split; [exact H1|]. split; [exact H2|].
  exact (parameter_names_disjoint_across_stages _ _ _ H1 H2).
Defined.

Example different_stages_share_no_name :
  Forall (fun n => n ∉ parameter_names (EventHub (with_serviceName "x" example_props)))
    (parameter_names
       (EventHub {| env := env example_props; serviceName := "x"; stage := "prod" |})).
Proof. compute_done. Qed.

Lemma split_on_cons_sep (sep : ascii) (s : string) :
  split_on sep (String sep s) = EmptyString :: split_on sep s.
Proof. cbn [split_on]. by rewrite decide_True. Qed.

Lemma split_on_cons_other (sep x : ascii) (s : string) :
  x ≠ sep ->
  split_on sep (String x s)
  = match split_on sep s with
    | [] => [String x EmptyString]
    | w :: ws => String x w :: ws
    end.
Proof. intros. cbn [split_on]. by rewrite decide_False. Qed.

Lemma split_on_lacks (sep : ascii) (k : string) :
  lacks sep k = true -> split_on sep k = [k].
Proof.
  induction k as [|x k IH]; [done|].
  cbn [lacks]. intros [Hx Hk]%andb_true_iff. apply bool_decide_eq_true in Hx.
  by rewrite split_on_cons_other, IH.
Qed.

Lemma split_on_app (sep : ascii) (a b : string) :
  lacks sep a = true ->
  split_on sep (a +:+ String sep b) = a :: split_on sep b.
Proof.
  induction a as [|x a IH]; [intros _; apply split_on_cons_sep|].
  cbn [lacks]. intros [Hx Ha]%andb_true_iff. apply bool_decide_eq_true in Hx.
  by rewrite append_cons, split_on_cons_other, IH.
Qed.

(** X6. When the stage holds no slash, each published name splits at
    the slashes into exactly an empty head, [vimo], the stage and the
    resource key: the stage and the key can be read back from the name. *)
Theorem parameter_name_segments (p : EventHubProps) :
  lacks "/" (stage p) = true ->
  split_on "/" <$> parameter_names (EventHub p)
  = (fun k => [EmptyString; "vimo"; stage p; k]) <$> resource_keys.
Proof.
  intros Hst. rewrite parameter_names_stage, <- list_fmap_compose.
  apply Forall_fmap_ext_1.
  eapply Forall_impl; [apply resource_keys_lack_slash|].
  intros k Hk. cbn [compose]. unfold parameter_path.
  change ("/vimo/" +:+ stage p +:+ "/" +:+ k)
    with (EmptyString +:+ String "/" ("vimo" +:+ String "/" (stage p +:+ String "/" k))).
  rewrite split_on_app by done. f_equal.
  rewrite split_on_app by done. f_equal.
  rewrite split_on_app by done. f_equal.
  by apply split_on_lacks.
Qed.

Lemma parameter_name_segments_witness :
  lacks "/" (stage example_props) = true
  ∧ split_on "/" <$> parameter_names (EventHub example_props)
    = (fun k => [EmptyString; "vimo"; stage example_props; k]) <$> resource_keys.
Proof.
  split; [reflexivity|].
  apply (parameter_name_segments example_props). reflexivity.
Defined.

(** A stage with a slash in it adds a level to the name. *)
Example stage_with_slash_adds_a_level :
  split_on "/" (parameter_path "team/dev" "event-bus-arn")
  = [EmptyString; "vimo"; "team"; "dev"; "event-bus-arn"].
Proof. vm_compute. reflexivity. Qed.

(** ** Partitions in chronological order *)

Lemma length_append (a b : string) :
  String.length (a +:+ b) = String.length a + String.length b.
Proof.
  induction a as [|x a IH]; [done|].
  rewrite append_cons. cbn [String.length]. by rewrite IH.
Qed.

Lemma length_low_digits (w n : nat) : String.length (low_digits w n) = w.
Proof.
  revert n. induction w as [|w IH]; intros n; [done|].
  cbn [low_digits]. rewrite length_append, IH. cbn [String.length]. lia.
Qed.

Lemma ndigits_fuel_le (fuel w n : nat) :
  1 ≤ w -> n < 10 ^ w -> ndigits_fuel fuel n ≤ w.
Proof.
  revert w n. induction fuel as [|fuel IH]; intros w n Hw Hn; [cbn; lia|].
  cbn [ndigits_fuel]. destruct (decide (n < 10)) as [|Hge]; [done|].
  destruct w as [|[|w]]; [lia|cbn in Hn; lia|].
  apply le_n_S, IH; [lia|].
  apply Nat.Div0.div_lt_upper_bound.
  by rewrite Nat.pow_succ_r' in Hn.
Qed.

Lemma zpad_low_digits (w n : nat) :
  1 ≤ w -> n < 10 ^ w -> zpad w n = low_digits w n.
Proof.
  intros Hw Hn. unfold zpad, ndigits.
  by rewrite Nat.max_l by by apply ndigits_fuel_le.
Qed.

Lemma string_compare_cons (x y : ascii) (a b : string) :
  String.compare (String x a) (String y b)
  = match Ascii.compare x y with
    | Eq => String.compare a b
    | r => r
    end.
Proof. reflexivity. Qed.

Lemma ascii_compare_refl (x : ascii) : Ascii.compare x x = Eq.
Proof. unfold Ascii.compare. apply N.compare_refl. Qed.

Lemma string_compare_refl (a : string) : String.compare a a = Eq.
Proof.
  induction a as [|x a IH]; [done|].
  by rewrite string_compare_cons, ascii_compare_refl.
Qed.

(** Strings of equal length compare first, then what follows them. *)
Lemma string_compare_app (a a' b b' : string) :
  String.length a = String.length a' ->
  String.compare (a +:+ b) (a' +:+ b')
  = match String.compare a a' with
    | Eq => String.compare b b'
    | r => r
    end.
Proof.
  revert a'. induction a as [|x a IH]; intros [|y a'] Hlen; try done.
  rewrite !append_cons, !string_compare_cons.
  destruct (Ascii.compare x y); [|done..].
  apply IH. by injection Hlen.
Qed.

Lemma digit_compare (a b : nat) :
  a < 10 -> b < 10 ->
  Ascii.compare (ascii_of_nat (48 + a)) (ascii_of_nat (48 + b)) = Nat.compare a b.
Proof.
  intros Ha Hb.
  do 10 (destruct a as [|a];
         [do 10 (destruct b as [|b]; [reflexivity|]); lia|]).
  lia.
Qed.

Lemma compare_div_mod (n m : nat) :
  Nat.compare n m
  = match Nat.compare (n / 10) (m / 10) with
    | Eq => Nat.compare (n mod 10) (m mod 10)
    | r => r
    end.
Proof.
  pose proof (Nat.div_mod_eq n 10). pose proof (Nat.div_mod_eq m 10).
  pose proof (Nat.mod_upper_bound n 10). pose proof (Nat.mod_upper_bound m 10).
  destruct (Nat.compare_spec (n / 10) (m / 10)).
  - destruct (Nat.compare_spec (n mod 10) (m mod 10)).
    + apply Nat.compare_eq_iff. lia.
    + apply Nat.compare_lt_iff. lia.
    + apply Nat.compare_gt_iff. lia.
  - apply Nat.compare_lt_iff. lia.
  - apply Nat.compare_gt_iff. lia.
Qed.

(** Numbers printed in the same width compare as the numbers do. *)
Lemma compare_low_digits (w n m : nat) :
  String.compare (low_digits w n) (low_digits w m)
  = Nat.compare (n mod 10 ^ w) (m mod 10 ^ w).
Proof.
  revert n m. induction w as [|w IH]; intros n m.
  { cbn [low_digits]. by rewrite !Nat.pow_0_r, !Nat.mod_1_r. }
  cbn [low_digits].
  rewrite string_compare_app by by rewrite !length_low_digits.
  rewrite IH, string_compare_cons. unfold digit.
  rewrite digit_compare by by apply Nat.mod_upper_bound.
  rewrite (compare_div_mod (n mod 10 ^ S w) (m mod 10 ^ S w)).
  assert (Hdiv : ∀ k, (k mod 10 ^ S w) / 10 = (k / 10) mod 10 ^ w).
  { intros k. rewrite Nat.pow_succ_r', Nat.Div0.mod_mul_r.
    rewrite (Nat.mul_comm 10), Nat.div_add by lia.
    rewrite Nat.div_small by (apply Nat.mod_upper_bound; lia). done. }
  assert (Hmod : ∀ k, (k mod 10 ^ S w) mod 10 = k mod 10).
  { intros k. rewrite Nat.pow_succ_r', Nat.Div0.mod_mul_r.
    rewrite (Nat.mul_comm 10), Nat.Div0.mod_add.
    by rewrite Nat.Div0.mod_mod. }
  rewrite !Hdiv, !Hmod.
  destruct (Nat.compare ((n / 10) mod 10 ^ w) ((m / 10) mod 10 ^ w)); [|done..].
  by destruct (Nat.compare (n mod 10) (m mod 10)).
Qed.

Lemma compare_zpad (w n m : nat) :
  1 ≤ w -> n < 10 ^ w -> m < 10 ^ w ->
  String.compare (zpad w n) (zpad w m) = Nat.compare n m.
Proof.
  intros Hw Hn Hm. rewrite !zpad_low_digits, compare_low_digits by done.
  by rewrite !Nat.mod_small.
Qed.

Lemma length_zpad (w n : nat) :
  1 ≤ w -> n < 10 ^ w -> String.length (zpad w n) = w.
Proof. intros. by rewrite zpad_low_digits, length_low_digits. Qed.

Lemma valid_datehour_bounds (t : datehour) :
  valid_datehour t ->
  year t < 10 ^ 4 ∧ month t < 10 ^ 2 ∧ day t < 10 ^ 2 ∧ hour t < 10 ^ 2.
Proof. unfold valid_datehour. cbn. lia. Qed.

Lemma chronological_eq (t1 t2 : datehour) : chronological t1 t2 = Eq -> t1 = t2.
Proof.
  unfold chronological. destruct t1 as [y1 m1 d1 h1], t2 as [y2 m2 d2 h2]; cbn.
  destruct (Nat.compare_spec y1 y2); [|done..].
  destruct (Nat.compare_spec m1 m2); [|done..].
  destruct (Nat.compare_spec d1 d2); [|done..].
  intros ->%Nat.compare_eq. by subst.
Qed.

Lemma format_length (t : datehour) :
  valid_datehour t -> String.length (format_date "yyyy/MM/dd/HH" t) = 13.
Proof.
  intros Hv. destruct (valid_datehour_bounds t Hv) as (Hy & Hm & Hd & Hh).
  rewrite format_yyyy_MM_dd_HH, !length_append, !length_zpad by (done || lia).
  reflexivity.
Qed.

Lemma format_compare (t1 t2 : datehour) :
  valid_datehour t1 -> valid_datehour t2 ->
  String.compare (format_date "yyyy/MM/dd/HH" t1) (format_date "yyyy/MM/dd/HH" t2)
  = chronological t1 t2.
Proof.
  intros valid1 valid2.
  destruct (valid_datehour_bounds t1 valid1) as (Hy1 & Hm1 & Hd1 & Hh1).
  destruct (valid_datehour_bounds t2 valid2) as (Hy2 & Hm2 & Hd2 & Hh2).
  rewrite !format_yyyy_MM_dd_HH. unfold chronological.
  rewrite string_compare_app, compare_zpad by (rewrite ?length_zpad; done || lia).
  destruct (Nat.compare (year t1) (year t2)); [|done..].
  rewrite (string_compare_app "/" "/") by done.
  rewrite string_compare_refl.
  rewrite string_compare_app, compare_zpad by (rewrite ?length_zpad; done || lia).
  destruct (Nat.compare (month t1) (month t2)); [|done..].
  rewrite (string_compare_app "/" "/") by done.
  rewrite string_compare_refl.
  rewrite string_compare_app, compare_zpad by (rewrite ?length_zpad; done || lia).
  destruct (Nat.compare (day t1) (day t2)); [|done..].
  rewrite (string_compare_app "/" "/") by done.
  rewrite string_compare_refl.
  by rewrite compare_zpad by (done || lia).
Qed.



(** Past the year 9999 the printed value grows and no longer sorts by
    date. *)
Example five_digit_year_breaks_the_order :
  String.length
    (format_date "yyyy/MM/dd/HH" {| year := 10 ^ 4; month := 1; day := 1; hour := 0 |})
  = 14
  ∧ String.compare
      (format_date "yyyy/MM/dd/HH" {| year := 10 ^ 4; month := 1; day := 1; hour := 0 |})
      (format_date "yyyy/MM/dd/HH" projection_start)
    = Lt.
Proof. split; vm_compute; reflexivity. Qed.

Section PartitionOrder.

Context (p : EventHubProps) (d : deployment).
Hypothesis bucket_plain : no_dollar (physicalId d "EventLake") = true.
Hypothesis region_plain : no_dollar (region (env p)) = true.
Context (t1 t2 : datehour).
Hypothesis valid1 : valid_datehour t1.
Hypothesis valid2 : valid_datehour t2.

(** X8. The paths the table's template resolves two calendar datehours
    to compare, as strings, the way the datehours do in time; so the
    partitions' paths sort by date, and two different hours never
    resolve to the same path. *)
Theorem partition_paths_sort_by_date :
  ∃ path1 path2,
    partition_path d (EventHub p) t1 = Some path1
    ∧ partition_path d (EventHub p) t2 = Some path2
    ∧ String.compare path1 path2 = chronological t1 t2
    ∧ (path1 = path2 -> t1 = t2).
Proof.
  do 2 eexists.
  split; [by apply partition_path_resolved|].
  split; [by apply partition_path_resolved|].
  assert (Hcmp : ∀ lake,
    String.compare (lake +:+ format_date "yyyy/MM/dd/HH" t1 +:+ "/")
                   (lake +:+ format_date "yyyy/MM/dd/HH" t2 +:+ "/")
    = chronological t1 t2).
  { intros lake. rewrite string_compare_app, string_compare_refl by done.
    rewrite string_compare_app by by rewrite !format_length.
    rewrite format_compare by done.
    by destruct (chronological t1 t2). }
  split; [apply Hcmp|].
  intros Heq. apply chronological_eq. rewrite <- (Hcmp
    ("s3://" +:+ physicalId d "EventLake" +:+ "/" +:+ region (env p) +:+ "/")).
  rewrite Heq. apply string_compare_refl.
Qed.

End PartitionOrder.

Lemma partition_paths_sort_by_date_witness :
  no_dollar (physicalId example_deployment "EventLake") = true
  ∧ no_dollar (region (env example_props)) = true
  ∧ valid_datehour projection_start
  ∧ valid_datehour example_later
  ∧ ∃ path1 path2,
      partition_path example_deployment (EventHub example_props) projection_start
        = Some path1
      ∧ partition_path example_deployment (EventHub example_props) example_later
        = Some path2
      ∧ String.compare path1 path2 = chronological projection_start example_later
      ∧ (path1 = path2 -> projection_start = example_later).
Proof.
  assert (H1 : valid_datehour projection_start) by (unfold valid_datehour; cbn; lia).
  assert (H2 : valid_datehour example_later) by (unfold valid_datehour; cbn; lia).
  split; [reflexivity|]. split; [reflexivity|].
  split; [exact H1|]. split; [exact H2|].
  exact (partition_paths_sort_by_date example_props example_deployment
           eq_refl eq_refl projection_start example_later H1 H2).
Defined.

Example partition_paths_in_order :
  partition_path example_deployment (EventHub example_props) example_later
    = Some "s3://eventhub-EventLake/eu-west-1/2025/11/02/07/"
  ∧ chronological projection_start example_later = Lt.
Proof. split; vm_compute; reflexivity. Qed.

(** ** The start of the projection's range *)

Lemma projection_range_declared (p : EventHubProps) :
  ∃ tbl, table_of "EventsTable" (EventHub p) = Some tbl
    ∧ parameter_text "projection.datehour.range" tbl = Some "2024/01/01/00,NOW"
    ∧ projection_range tbl = Some ["2024/01/01/00"; "NOW"].
Proof. eexists. split; [reflexivity|]. split; vm_compute; reflexivity. Qed.

(** X10. The events table declares the range of its projection to start
    at the value that its own declared format prints for 1 January 2024,
    00h, and to end at NOW; compared as a string with the value the
    declared format prints for any calendar datehour, the start tells
    whether that datehour lies before, at or after it. *)
Theorem range_start_bounds_partitions (p : EventHubProps) (t : datehour) :
  valid_datehour t ->
  ∃ tbl key fmt start,
    table_of "EventsTable" (EventHub p) = Some tbl
    ∧ head (partitionKeys tbl) = Some key
    ∧ parameter_text ("projection." +:+ col_name key +:+ ".format") tbl = Some fmt
    ∧ parameter_text ("projection." +:+ col_name key +:+ ".range") tbl
      = Some (start +:+ ",NOW")
    ∧ projection_range tbl = Some [start; "NOW"]
    ∧ start = format_date fmt projection_start
    ∧ String.compare start (format_date fmt t) = chronological projection_start t.
Proof.
  intros Hv. destruct (projection_range_declared p) as (tbl & Ht & Hrt & Hr).
  destruct (events_table_declared p) as (tbl' & Ht' & Hk & _ & Hfmt & _).
  rewrite Ht in Ht'. injection Ht' as <-.
  exists tbl, {| col_name := "datehour"; col_type := "string" |},
    "yyyy/MM/dd/HH", "2024/01/01/00".
  split; [exact Ht|]. split; [by rewrite Hk|]. split; [exact Hfmt|].
  split; [exact Hrt|]. split; [exact Hr|].
  assert (Hs : "2024/01/01/00" = format_date "yyyy/MM/dd/HH" projection_start)
    by (vm_compute; reflexivity).
  split; [exact Hs|].
  rewrite Hs. apply format_compare; [|exact Hv].
  unfold valid_datehour. cbn. lia.
Qed.

Lemma range_start_bounds_partitions_witness :
  valid_datehour example_later
  ∧ ∃ tbl key fmt start,
      table_of "EventsTable" (EventHub example_props) = Some tbl
      ∧ head (partitionKeys tbl) = Some key
      ∧ parameter_text ("projection." +:+ col_name key +:+ ".format") tbl = Some fmt
      ∧ parameter_text ("projection." +:+ col_name key +:+ ".range") tbl
        = Some (start +:+ ",NOW")
      ∧ projection_range tbl = Some [start; "NOW"]
      ∧ start = format_date fmt projection_start
      ∧ String.compare start (format_date fmt example_later)
        = chronological projection_start example_later.
Proof.
  assert (H : valid_datehour example_later) by (unfold valid_datehour; cbn; lia).
  split; [exact H|].
  exact (range_start_bounds_partitions example_props example_later H).
Defined.
